(** * PMS monitoring service: health prober, status store, scheduler, hub

    A shallow embedding of [src/index.ts].  JavaScript numbers that the
    program handles are integers (status codes, millisecond clock readings,
    counts) and are modelled in [Z]; strings are [string]; the insertion
    ordered [Map] is an association list; the [Set] of sockets is a
    duplicate-free list of socket identities; promises are modelled by the
    way they settle. *)

From Stdlib Require Import ZArith List String Bool Lia DecimalString.
Import ListNotations.
Local Open Scope string_scope.
Local Open Scope list_scope.
Local Open Scope Z_scope.

(** ** Data model *)

(** An entry of the [services] array. *)
Record ServiceTarget : Type := mkTarget {
  svc_name : string;
  svc_url  : string
}.

(** [status: 'healthy' | 'unhealthy' | 'unknown'] *)
Inductive Health : Type := healthy | unhealthy | unknown.

(** [interface ServiceStatus]; [lastCheck] is the epoch reading of the
    [Date], [error] is the optional property. *)
Record ServiceStatus : Type := mkStatus {
  name         : string;
  status       : Health;
  responseTime : Z;
  lastCheck    : Z;
  uptime       : Z;
  error        : option string
}.

Definition services : list ServiceTarget :=
  [ mkTarget "backend"     "http://localhost:5000/health";
    mkTarget "core"        "http://localhost:3000/health";
    mkTarget "admin"       "http://localhost:3010";
    mkTarget "guest"       "http://localhost:3011";
    mkTarget "staff"       "http://localhost:3012";
    mkTarget "marketplace" "http://localhost:3013";
    mkTarget "gateway"     "http://localhost:8080/health" ].

Definition Health_eqb (a b : Health) : bool :=
  match a, b with
  | healthy, healthy | unhealthy, unhealthy | unknown, unknown => true
  | _, _ => false
  end.

(** ** Exceptions and promises *)

(** What a [catch (error: any)] clause can be handed: an object carrying a
    [message], or [null]/[undefined], on which a property read throws. *)
Inductive Thrown : Type :=
| ErrorObject (message : string)
| Nullish.

(** Completion of a block: a value, or an exception on its way out.  The
    promise of an [async] function settles the same way, so the type also
    stands for [PromiseSettledResult]. *)
Inductive Settled (A : Type) : Type :=
| Fulfilled (value : A)
| Rejected (reason : Thrown).
Arguments Fulfilled {A} value.
Arguments Rejected {A} reason.

Definition bind {A B : Type} (c : Settled A) (k : A -> Settled B) : Settled B :=
  match c with
  | Fulfilled a => k a
  | Rejected e => Rejected e
  end.

Notation "x <- c ;; k" := (bind c (fun x => k))
  (at level 61, c at next level, right associativity).

(** [try { body } catch (error) { handler }] *)
Definition try_catch {A : Type} (body : Settled A) (handler : Thrown -> Settled A)
  : Settled A :=
  match body with
  | Fulfilled a => Fulfilled a
  | Rejected e => handler e
  end.

(** The property read [error.message]. *)
Definition get_message (e : Thrown) : Settled string :=
  match e with
  | ErrorObject m => Fulfilled m
  | Nullish =>
      Rejected (ErrorObject "Cannot read properties of undefined (reading 'message')")
  end.

(** ** The HTTP client *)

(** What happens on the wire to one GET request. *)
Inductive ProbeOutcome : Type :=
| Responded (code : Z)
| TimedOut
| TransportFailed (message : string).

Definition show_Z (z : Z) : string := NilZero.string_of_int (Z.to_int z).

(** [axios.get(url, { timeout, validateStatus })]: the response is handed
    back when [validateStatus] accepts its code, every other outcome rejects
    with an error object whose message axios builds (status rejection,
    timeout) or copies from the underlying socket error. *)
Definition axios_get (timeout : Z) (validateStatus : Z -> bool) (o : ProbeOutcome)
  : Settled Z :=
  match o with
  | Responded code =>
      if validateStatus code then Fulfilled code
      else Rejected (ErrorObject ("Request failed with status code " ++ show_Z code))
  | TimedOut =>
      Rejected (ErrorObject ("timeout of " ++ show_Z timeout ++ "ms exceeded"))
  | TransportFailed m => Rejected (ErrorObject m)
  end.

(** ** Health prober *)

(** The three clock reads of one invocation: [Date.now()] on entry,
    [Date.now()] after the request settled, and [new Date()]. *)
Record Clock : Type := mkClock {
  startTime  : Z;
  settleTime : Z;
  checkedAt  : Z
}.

(** [validateStatus: (status) => status < 500] *)
Definition validateStatus (status : Z) : bool := status <? 500.

(** The request as [checkServiceHealth] configures it. *)
Definition request (o : ProbeOutcome) : Settled Z :=
  axios_get 5000 validateStatus o.

(** [checkServiceHealth(service)], given what [await axios.get(...)] did and
    what the clock read. *)
Definition checkServiceHealth (service : ServiceTarget) (clk : Clock)
  (got : Settled Z) : Settled ServiceStatus :=
  try_catch
    (response_status <- got ;;
     Fulfilled {| name := svc_name service;
                  status := healthy;
                  responseTime := settleTime clk - startTime clk;
                  lastCheck := checkedAt clk;
                  uptime := if response_status =? 200 then 100 else 90;
                  error := None |})
    (fun err =>
       message <- get_message err ;;
       Fulfilled {| name := svc_name service;
                    status := unhealthy;
                    responseTime := settleTime clk - startTime clk;
                    lastCheck := checkedAt clk;
                    uptime := 0;
                    error := Some message |}).

(** The probes that count as failed: a response with code 500 or more, a
    timeout, a transport failure. *)
Definition failed (o : ProbeOutcome) : Prop :=
  match o with
  | Responded code => 500 <= code
  | TimedOut => True
  | TransportFailed _ => True
  end.

(** Whether the probe counts as failed, as a test. *)
Definition failedb (o : ProbeOutcome) : bool :=
  match o with
  | Responded code => 500 <=? code
  | TimedOut => true
  | TransportFailed _ => true
  end.

(** The message of the error object a failed probe is rejected with. *)
Definition failure_message (o : ProbeOutcome) : string :=
  match o with
  | Responded code => "Request failed with status code " ++ show_Z code
  | TimedOut => "timeout of 5000ms exceeded"
  | TransportFailed m => m
  end.

(** ** The status store: a JavaScript [Map] keyed by strings

    A [Map] remembers insertion order; [set] on a key already present
    replaces the value where it stands, a new key goes to the end. *)
Module JsMap.

Definition t (V : Type) : Type := list (string * V).

Definition empty {V : Type} : t V := [].

Fixpoint set {V : Type} (k : string) (v : V) (m : t V) : t V :=
  match m with
  | [] => [(k, v)]
  | (k', v') :: rest =>
      if String.eqb k' k then (k, v) :: rest else (k', v') :: set k v rest
  end.

Fixpoint get {V : Type} (k : string) (m : t V) : option V :=
  match m with
  | [] => None
  | (k', v') :: rest => if String.eqb k' k then Some v' else get k rest
  end.

(** [Array.from(m.values())] *)
Definition values {V : Type} (m : t V) : list V := List.map snd m.

Definition keys {V : Type} (m : t V) : list string := List.map fst m.

(** Number of entries stored under [k]. *)
Definition entries_for {V : Type} (k : string) (m : t V) : nat :=
  List.length (List.filter (fun e => String.eqb (fst e) k) m).

End JsMap.

Definition Store : Type := JsMap.t ServiceStatus.

(** No key is stored twice. *)
Definition single_keyed (m : Store) : Prop :=
  forall k, (JsMap.entries_for k m <= 1)%nat.

(** Healthy records carry no [error]. *)
Definition error_free_when_healthy (m : Store) : Prop :=
  forall st, In st (JsMap.values m) -> status st = healthy -> error st = None.

(** ** Sockets and the live set

    A socket is known by its identity; its [readyState] and the fate of a
    [send] belong to the environment.  The [Set] keeps insertion order and
    holds each socket once. *)
Definition Socket : Type := nat.

Definition set_add (ws : Socket) (s : list Socket) : list Socket :=
  if List.existsb (Nat.eqb ws) s then s else s ++ [ws].

Definition set_delete (ws : Socket) (s : list Socket) : list Socket :=
  List.filter (fun c => negb (Nat.eqb c ws)) s.

(** The object handed to [JSON.stringify]: [type], [data] and, for a
    broadcast, [timestamp] (the epoch reading that [toISOString] prints). *)
Record Message : Type := mkMessage {
  type      : string;
  data      : list ServiceStatus;
  timestamp : option Z
}.

(** One call of [send] on a socket.  The call returns to the caller either
    way: on an open socket the library reports a failed write later, by
    closing the socket (see [cycle_then_closes]). *)
Record Send : Type := mkSend {
  to      : Socket;
  payload : Message
}.

(** ** Broadcast hub *)

(** The [statusData] object of [broadcastStatus]. *)
Definition statusData (store : Store) (now : Z) : Message :=
  {| type := "status"; data := JsMap.values store; timestamp := Some now |}.

(** [broadcastStatus()]: the calls of [send] it makes, in order.  It reads
    [clients] and [serviceStatuses] and assigns neither. *)
Definition broadcastStatus (serviceStatuses : Store) (clients : list Socket)
  (readyState : Socket -> Z) (now : Z) : list Send :=
  List.flat_map
    (fun client =>
       if readyState client =? 1
       then [mkSend client (statusData serviceStatuses now)]
       else [])
    clients.

(** ** Polling scheduler *)

(** [a || b] on strings: the empty string is falsy. *)
Definition or_else (a : option string) (b : string) : string :=
  match a with
  | Some s => if String.eqb s "" then b else s
  | None => b
  end.

(** [services[index]?.name || 'unknown'] *)
Definition serviceName (index : nat) : string :=
  or_else (option_map svc_name (List.nth_error services index)) "unknown".

(** The record that [forEach] stores for one settled result: the value of a
    fulfilled one, the synthesized record for a rejected one. *)
Definition stored (now : Z) (index : nat) (result : Settled ServiceStatus)
  : ServiceStatus :=
  match result with
  | Fulfilled statusResult => statusResult
  | Rejected _ =>
      {| name := serviceName index; status := unknown; responseTime := 0;
         lastCheck := now; uptime := 0; error := Some "Health check failed" |}
  end.

(** The body of [results.forEach((result, index) => ...)] for one element;
    [now] is the reading of [new Date()] in the rejected branch. *)
Definition record_result (now : Z) (index : nat)
  (result : Settled ServiceStatus) (serviceStatuses : Store) : Store :=
  match result with
  | Fulfilled statusResult =>
      JsMap.set (serviceName index) statusResult serviceStatuses
  | Rejected _ =>
      JsMap.set (serviceName index)
        {| name := serviceName index;
           status := unknown;
           responseTime := 0;
           lastCheck := now;
           uptime := 0;
           error := Some "Health check failed" |}
        serviceStatuses
  end.

Fixpoint forEach_from (now : nat -> Z) (index : nat)
  (results : list (Settled ServiceStatus)) (serviceStatuses : Store) : Store :=
  match results with
  | [] => serviceStatuses
  | result :: rest =>
      forEach_from now (S index) rest
        (record_result (now index) index result serviceStatuses)
  end.

(** Everything one cycle takes from outside: how each request settles, the
    clock, and the state of the sockets when the broadcast runs. *)
Record CycleEnv : Type := mkCycleEnv {
  settles     : ServiceTarget -> Settled Z;
  clockOf     : ServiceTarget -> Clock;
  faultAt     : nat -> Z;
  broadcastAt : Z;
  readyState  : Socket -> Z
}.

(** [Promise.allSettled(services.map(service => checkServiceHealth(service)))] *)
Definition probe_all (env : CycleEnv) : list (Settled ServiceStatus) :=
  List.map (fun service => checkServiceHealth service (clockOf env service)
                             (settles env service))
           services.

(** The monitor's state: the two module level variables. *)
Record Monitor : Type := mkMonitor {
  serviceStatuses : Store;
  clients         : list Socket
}.

(** [monitorServices()] from the point where [allSettled] has resolved: the
    new state and the sends made. *)
Definition monitorServices (env : CycleEnv) (m : Monitor) : Monitor * list Send :=
  let results := probe_all env in
  let store' := forEach_from (faultAt env) 0 results (serviceStatuses m) in
  ({| serviceStatuses := store'; clients := clients m |},
   broadcastStatus store' (clients m) (readyState env) (broadcastAt env)).

(** [wss.on('connection', (ws) => ...)] up to the registration of the close
    handler. *)
Definition on_connection (ws : Socket) (m : Monitor) : Monitor * list Send :=
  ({| serviceStatuses := serviceStatuses m; clients := set_add ws (clients m) |},
   [mkSend ws {| type := "status";
                 data := JsMap.values (serviceStatuses m);
                 timestamp := None |}]).

(** [ws.on('close', () => clients.delete(ws))] *)
Definition on_close (ws : Socket) (m : Monitor) : Monitor * list Send :=
  ({| serviceStatuses := serviceStatuses m; clients := set_delete ws (clients m) |},
   []).

(** What the event loop can run next. *)
Inductive Event : Type :=
| Cycle (env : CycleEnv)
| Connection (ws : Socket)
| Close (ws : Socket).

Definition step (ev : Event) (m : Monitor) : Monitor * list Send :=
  match ev with
  | Cycle env => monitorServices env m
  | Connection ws => on_connection ws m
  | Close ws => on_close ws m
  end.

(** The state at start-up: [new Map()], [new Set()]. *)
Definition initial : Monitor :=
  {| serviceStatuses := JsMap.empty; clients := [] |}.

(** The state after a sequence of events, oldest first. *)
Fixpoint run (evs : list Event) (m : Monitor) : Monitor :=
  match evs with
  | [] => m
  | ev :: rest => run rest (fst (step ev m))
  end.

Definition is_cycle (ev : Event) : bool :=
  match ev with Cycle _ => true | _ => false end.

(** The sends addressed to one socket. *)
Definition sends_to (ws : Socket) (out : list Send) : list Send :=
  List.filter (fun s => Nat.eqb (to s) ws) out.



(** Whether a request resolved. *)
Definition resolved (r : Settled Z) : bool :=
  match r with
  | Fulfilled _ => true
  | Rejected _ => false
  end.

(** ** Query surface *)

Record Summary : Type := mkSummary {
  totalServices     : Z;
  healthyServices   : Z;
  unhealthyServices : Z;
  overallHealth     : string
}.

(** The [summary] object of [GET /api/status]. *)
Definition api_status (serviceStatuses : Store) : Summary :=
  let statuses := JsMap.values serviceStatuses in
  let healthyCount :=
    Z.of_nat (List.length
                (List.filter (fun s => Health_eqb (status s) healthy) statuses)) in
  let total := Z.of_nat (List.length statuses) in
  {| totalServices := total;
     healthyServices := healthyCount;
     unhealthyServices := total - healthyCount;
     overallHealth := if healthyCount =? total then "healthy" else "degraded" |}.

(** The body of [GET /api/status]: [success], [summary], [services]. *)
Record StatusReply : Type := mkStatusReply {
  status_success : bool;
  summary        : Summary;
  listed         : list ServiceStatus
}.

Definition api_status_reply (serviceStatuses : Store) : StatusReply :=
  let statuses := JsMap.values serviceStatuses in
  {| status_success := true;
     summary := api_status serviceStatuses;
     listed := statuses |}.

(** The reply of [GET /api/service/:name]: the HTTP status and the
    properties of the JSON body. *)
Record ServiceReply : Type := mkServiceReply {
  http_status : Z;
  success     : bool;
  message     : option string;
  service     : option ServiceStatus
}.

(** [app.get('/api/service/:name', ...)] *)
Definition api_service (name : string) (serviceStatuses : Store) : ServiceReply :=
  match JsMap.get name serviceStatuses with
  | None =>
      {| http_status := 404; success := false;
         message := Some "Service not found"; service := None |}
  | Some found =>
      {| http_status := 200; success := true;
         message := None; service := Some found |}
  end.

(** ** Runs of the event loop *)

(** Everything sent during a sequence of events, oldest first. *)
Fixpoint trace (evs : list Event) (m : Monitor) : list Send :=
  match evs with
  | [] => []
  | ev :: rest => snd (step ev m) ++ trace rest (fst (step ev m))
  end.

(** The environment of the latest cycle of a sequence, if it has one;
    [seen] is the latest one before the sequence. *)
Fixpoint last_cycle_from (seen : option CycleEnv) (evs : list Event)
  : option CycleEnv :=
  match evs with
  | [] => seen
  | Cycle env :: rest => last_cycle_from (Some env) rest
  | _ :: rest => last_cycle_from seen rest
  end.

Definition last_cycle (evs : list Event) : option CycleEnv :=
  last_cycle_from None evs.

(** Whether the latest connection or close event of socket [c] in a
    sequence is a connection; [before] tells it for the time before. *)
Fixpoint connected_from (before : bool) (c : Socket) (evs : list Event) : bool :=
  match evs with
  | [] => before
  | Connection ws :: rest =>
      connected_from (if Nat.eqb ws c then true else before) c rest
  | Close ws :: rest =>
      connected_from (if Nat.eqb ws c then false else before) c rest
  | Cycle _ :: rest => connected_from before c rest
  end.

Definition connected (c : Socket) (evs : list Event) : bool :=
  connected_from false c evs.

(** The names of the registry, in its order. *)
Definition registry_names : list string := List.map svc_name services.

Definition registered (n : string) : bool :=
  List.existsb (String.eqb n) registry_names.

(** The records one cycle stores for the targets [targets], the first of
    which has index [index]. *)
Fixpoint records_from (env : CycleEnv) (index : nat) (targets : list ServiceTarget)
  : list ServiceStatus :=
  match targets with
  | [] => []
  | T :: rest =>
      stored (faultAt env index) index
        (checkServiceHealth T (clockOf env T) (settles env T))
      :: records_from env (S index) rest
  end.

Definition cycle_records (env : CycleEnv) : list ServiceStatus :=
  records_from env 0 services.

(** The store holding the records of one cycle under the registry names. *)
Definition cycle_store (env : CycleEnv) : Store :=
  List.combine registry_names (cycle_records env).

(** The store is empty or holds the registry names, in order. *)
Definition shaped (m : Store) : Prop :=
  m = JsMap.empty \/ JsMap.keys m = registry_names.

(** What the three kinds of record look like. *)
Definition coherent (st : ServiceStatus) : Prop :=
  (status st = healthy /\ error st = None /\ (uptime st = 100 \/ uptime st = 90))
  \/ (status st = unhealthy /\ uptime st = 0 /\ exists msg, error st = Some msg)
  \/ (status st = unknown /\ uptime st = 0 /\ responseTime st = 0
      /\ error st = Some "Health check failed").

(** ** Sample environments *)

(** Every target answers with [code]; every socket reports [rs]. *)
Definition env_answering (code : Z) (rs : Z) : CycleEnv :=
  {| settles := fun _ => request (Responded code);
     clockOf := fun _ => mkClock 1000 1012 1012;
     faultAt := fun _ => 1013;
     broadcastAt := 1014;
     readyState := fun _ => rs |}.

(** Every request rejects with [undefined]. *)
Definition env_faulting : CycleEnv :=
  {| settles := fun _ => Rejected Nullish;
     clockOf := fun _ => mkClock 1000 1012 1012;
     faultAt := fun _ => 1013;
     broadcastAt := 1014;
     readyState := fun _ => 1 |}.

(** * Properties *)

(** ** Facts about the [Map] operations *)
Section JsMapFacts.

Context {V : Type}.
Implicit Types (k : string) (v : V) (m : JsMap.t V).

Lemma get_set_same k v m : JsMap.get k (JsMap.set k v m) = Some v.
Proof.
  induction m as [|[k' v'] rest IH]; simpl.
  - now rewrite String.eqb_refl.
  - destruct (String.eqb k' k) eqn:E; simpl.
    + now rewrite String.eqb_refl.
    + now rewrite E.
Qed.

Lemma get_set_other k k' v m :
  k' <> k -> JsMap.get k (JsMap.set k' v m) = JsMap.get k m.
Proof.
  intros Hne.
  assert (Hk : String.eqb k' k = false) by now apply String.eqb_neq.
  induction m as [|[k0 v0] rest IH]; simpl.
  - now rewrite Hk.
  - destruct (String.eqb k0 k') eqn:E; simpl.
    + apply String.eqb_eq in E; subst k0. now rewrite Hk.
    + now rewrite IH.
Qed.

Lemma entries_for_set_same k v m :
  JsMap.entries_for k (JsMap.set k v m) = Nat.max 1 (JsMap.entries_for k m).
Proof.
  unfold JsMap.entries_for.
  induction m as [|[k' v'] rest IH]; simpl.
  - now rewrite String.eqb_refl.
  - destruct (String.eqb k' k) eqn:E; simpl.
    + rewrite String.eqb_refl. simpl. reflexivity.
    + rewrite E. exact IH.
Qed.

Lemma entries_for_set_other k k' v m :
  k' <> k -> JsMap.entries_for k (JsMap.set k' v m) = JsMap.entries_for k m.
Proof.
  intros Hne. unfold JsMap.entries_for.
  assert (Hk : String.eqb k' k = false) by now apply String.eqb_neq.
  induction m as [|[k0 v0] rest IH]; simpl.
  - now rewrite Hk.
  - destruct (String.eqb k0 k') eqn:E; simpl.
    + apply String.eqb_eq in E; subst k0. now rewrite Hk.
    + destruct (String.eqb k0 k); simpl; now rewrite IH.
Qed.

(** A value read back from the map is one of its values. *)
Lemma get_In_values k v m : JsMap.get k m = Some v -> In v (JsMap.values m).
Proof.
  induction m as [|[k' v'] rest IH]; simpl; [discriminate|].
  destruct (String.eqb k' k); intros H.
  - left. congruence.
  - right. now apply IH.
Qed.

(** [set] adds at most the value written. *)
Lemma In_values_set k v m x :
  In x (JsMap.values (JsMap.set k v m)) -> x = v \/ In x (JsMap.values m).
Proof.
  induction m as [|[k' v'] rest IH]; simpl.
  - intros [H|[]]. now left.
  - destruct (String.eqb k' k); simpl; intros [H|H]; auto.
    destruct (IH H); auto.
Qed.

End JsMapFacts.

Lemma single_keyed_set k v (m : Store) :
  single_keyed m -> single_keyed (JsMap.set k v m).
Proof.
  intros Hm k0. destruct (String.eqb_spec k k0) as [->|Hne].
  - rewrite entries_for_set_same. specialize (Hm k0). lia.
  - rewrite entries_for_set_other by assumption. apply Hm.
Qed.

(** ** Facts about the prober *)

Lemma record_result_set now index result (m : Store) :
  record_result now index result m
  = JsMap.set (serviceName index) (stored now index result) m.
Proof. now destruct result. Qed.

(** A request rejected by [axios_get] always carries an error object. *)
Lemma request_reason o e : request o = Rejected e -> exists msg, e = ErrorObject msg.
Proof.
  unfold request, axios_get.
  destruct o as [code| |msg]; [destruct (validateStatus code)| |];
    intros H; inversion H; eauto.
Qed.

(** Whatever the request did, a record marked healthy has no [error]. *)
Lemma checkServiceHealth_healthy_no_error service clk got st :
  checkServiceHealth service clk got = Fulfilled st ->
  status st = healthy -> error st = None.
Proof.
  unfold checkServiceHealth.
  destruct got as [code|[msg|]]; simpl; intros H; inversion H; subst; simpl;
    [reflexivity | discriminate].
Qed.

Lemma failedb_spec o : failedb o = true <-> failed o.
Proof.
  destruct o as [code| |msg]; simpl; [apply Z.leb_le | tauto | tauto].
Qed.

(** The one way the prober's promise rejects: a nullish rejection reason. *)
Lemma checkServiceHealth_nullish service clk :
  exists e, checkServiceHealth service clk (Rejected Nullish) = Rejected e.
Proof. eexists. reflexivity. Qed.

(** ** Health prober: classification of one probe *)

(** C1.  When the GET completes with a response whose status code is below
    500, [checkServiceHealth] returns a record with [status = healthy]; its
    [uptime] is 100 when the code is exactly 200 and 90 for every other
    accepted code. *)
Theorem checkServiceHealth_accepted service clk code :
  code < 500 ->
  exists st,
    checkServiceHealth service clk (request (Responded code)) = Fulfilled st
    /\ status st = healthy
    /\ (code = 200 -> uptime st = 100)
    /\ (code <> 200 -> uptime st = 90).
Proof.
  intros Hlt.
  unfold request, axios_get, validateStatus.
  apply Z.ltb_lt in Hlt. rewrite Hlt.
  eexists. split; [reflexivity|]. simpl.
  split; [reflexivity|].
  split; intros Hc.
  - subst code. reflexivity.
  - apply Z.eqb_neq in Hc. now rewrite Hc.
Qed.

Lemma checkServiceHealth_accepted_witness :
  (404 < 500) /\
  exists st,
    checkServiceHealth (mkTarget "admin" "http://localhost:3010") (mkClock 10 25 26)
      (request (Responded 404)) = Fulfilled st
    /\ status st = healthy
    /\ (404 = 200 -> uptime st = 100)
    /\ (404 <> 200 -> uptime st = 90).
Proof.
  split; [lia|].
  apply (checkServiceHealth_accepted
           (mkTarget "admin" "http://localhost:3010") (mkClock 10 25 26) 404).
  lia.
Defined.

(** C2, as stated, fails: a transport failure whose error object has the
    empty message (the prober copies [error.message] as it is) gives a
    record whose [error] is the empty string, so no record with a non-empty
    description is returned. *)
Lemma checkServiceHealth_error_may_be_empty :
  ~ (exists st msg,
       checkServiceHealth (mkTarget "backend" "http://localhost:5000/health")
         (mkClock 0 3 3) (request (TransportFailed "")) = Fulfilled st
       /\ status st = unhealthy /\ uptime st = 0
       /\ error st = Some msg /\ msg <> "").
Proof.
  intros (st & msg & Hres & _ & _ & Herr & Hne).
  vm_compute in Hres. inversion Hres; subst st. simpl in Herr.
  inversion Herr. congruence.
Qed.

(** C2, amended.  A probe that fails in transport, times out, or is answered
    with a code of 500 or more yields [status = unhealthy], [uptime = 0] and
    an [error] equal to the message of the failure: the status-code message
    for a 5xx answer, the timeout message for a timeout, and for a transport
    failure the message of the underlying error, which is non-empty exactly
    when that message is. *)
Theorem checkServiceHealth_failed service clk o :
  failed o ->
  exists st,
    checkServiceHealth service clk (request o) = Fulfilled st
    /\ status st = unhealthy
    /\ uptime st = 0
    /\ error st = Some (failure_message o)
    /\ (o <> TransportFailed "" -> failure_message o <> "").
Proof.
  intros Hf.
  destruct o as [code| |msg]; simpl in Hf.
  - unfold request, axios_get, validateStatus.
    assert (Hge : (code <? 500) = false) by (apply Z.ltb_ge; lia).
    rewrite Hge. eexists. split; [reflexivity|]. simpl.
    repeat split. intros _. discriminate.
  - eexists. split; [reflexivity|]. simpl.
    repeat split. intros _. discriminate.
  - eexists. split; [reflexivity|]. simpl.
    repeat split. intros Hne Hm. apply Hne. now rewrite Hm.
Qed.

Lemma checkServiceHealth_failed_witness :
  failed (Responded 503) /\
  exists st,
    checkServiceHealth (mkTarget "core" "http://localhost:3000/health")
      (mkClock 100 140 141) (request (Responded 503)) = Fulfilled st
    /\ status st = unhealthy
    /\ uptime st = 0
    /\ error st = Some (failure_message (Responded 503))
    /\ (Responded 503 <> TransportFailed "" -> failure_message (Responded 503) <> "").
Proof.
  split; [simpl; lia|].
  apply (checkServiceHealth_failed
           (mkTarget "core" "http://localhost:3000/health")
           (mkClock 100 140 141) (Responded 503)).
  simpl; lia.
Defined.

(** C3.  For every target, every clock and every outcome of the probe
    (accepted response, 5xx response, timeout, transport failure) the
    promise of [checkServiceHealth] is fulfilled with a record: nothing is
    thrown to the caller, and a failed probe is told by the record itself,
    through its [status] and [error]. *)
Theorem checkServiceHealth_total service clk o :
  exists st,
    checkServiceHealth service clk (request o) = Fulfilled st
    /\ name st = svc_name service
    /\ status st = (if failedb o then unhealthy else healthy)
    /\ error st = (if failedb o then Some (failure_message o) else None).
Proof.
  destruct o as [code| |msg].
  - unfold request, axios_get, validateStatus, failedb.
    destruct (code <? 500) eqn:E.
    + assert (Hb : (500 <=? code) = false)
        by (apply Z.leb_gt; now apply Z.ltb_lt).
      rewrite Hb. eexists. split; [reflexivity|]. now simpl.
    + assert (Hb : (500 <=? code) = true)
        by (apply Z.leb_le; apply Z.ltb_ge in E; lia).
      rewrite Hb. eexists. split; [reflexivity|]. now simpl.
  - eexists. split; [reflexivity|]. now simpl.
  - eexists. split; [reflexivity|]. now simpl.
Qed.

(** ** Facts about the registry *)

Lemma serviceName_target i T :
  List.nth_error services i = Some T -> serviceName i = svc_name T.
Proof.
  unfold serviceName, services.
  do 7 (destruct i as [|i]; [intros H; inversion H; reflexivity|]).
  destruct i; discriminate.
Qed.

Lemma serviceName_distinct i j :
  (i < List.length services)%nat -> (j < List.length services)%nat ->
  i <> j -> serviceName i <> serviceName j.
Proof.
  simpl. intros Hi Hj Hne.
  do 7 (destruct i as [|i]; [
    do 7 (destruct j as [|j]; [first [congruence | vm_compute; discriminate]|]); lia |]).
  lia.
Qed.

Lemma probe_all_length env : List.length (probe_all env) = List.length services.
Proof. unfold probe_all. apply List.length_map. Qed.

Lemma probe_all_nth env i T :
  List.nth_error services i = Some T ->
  List.nth_error (probe_all env) i
  = Some (checkServiceHealth T (clockOf env T) (settles env T)).
Proof.
  intros H. unfold probe_all. rewrite List.nth_error_map, H. reflexivity.
Qed.

(** ** Facts about the [forEach] loop *)

Lemma get_entries_for k (m : Store) v :
  JsMap.get k m = Some v -> (1 <= JsMap.entries_for k m)%nat.
Proof.
  unfold JsMap.entries_for.
  induction m as [|[k' v'] rest IH]; simpl; [discriminate|].
  destruct (String.eqb k' k); simpl; intros H; [lia | auto].
Qed.

Lemma forEach_from_get_other now results :
  forall base m k,
    (forall j, (j < List.length results)%nat -> serviceName (base + j) <> k) ->
    JsMap.get k (forEach_from now base results m) = JsMap.get k m.
Proof.
  induction results as [|r rest IH]; intros base m k Hk; simpl; [reflexivity|].
  rewrite IH.
  - rewrite record_result_set. apply get_set_other.
    specialize (Hk 0%nat). rewrite Nat.add_0_r in Hk. apply Hk. simpl; lia.
  - intros j Hj. replace (S base + j)%nat with (base + S j)%nat by lia.
    apply Hk. simpl; lia.
Qed.

Lemma forEach_from_get now results :
  forall base m i r,
    List.nth_error results i = Some r ->
    (forall j, (j < List.length results)%nat -> j <> i ->
               serviceName (base + j) <> serviceName (base + i)) ->
    JsMap.get (serviceName (base + i)) (forEach_from now base results m)
    = Some (stored (now (base + i)%nat) (base + i) r).
Proof.
  induction results as [|r0 rest IH]; intros base m i r Hi Hd.
  - destruct i; discriminate.
  - destruct i as [|i]; simpl in Hi |- *.
    + inversion Hi; subst r0. rewrite Nat.add_0_r in *.
      rewrite forEach_from_get_other.
      * rewrite record_result_set. apply get_set_same.
      * intros j Hj. replace (S base + j)%nat with (base + S j)%nat by lia.
        apply Hd; simpl; lia.
    + replace (base + S i)%nat with (S base + i)%nat by lia.
      apply IH; [assumption|].
      intros j Hj Hne.
      replace (S base + j)%nat with (base + S j)%nat by lia.
      replace (S base + i)%nat with (base + S i)%nat by lia.
      apply Hd; simpl; lia.
Qed.

Lemma forEach_from_single_keyed now results :
  forall base m, single_keyed m -> single_keyed (forEach_from now base results m).
Proof.
  induction results as [|r rest IH]; intros base m Hm; simpl; [assumption|].
  apply IH. rewrite record_result_set. now apply single_keyed_set.
Qed.

Lemma forEach_from_In_values now results :
  forall base m x,
    In x (JsMap.values (forEach_from now base results m)) ->
    In x (JsMap.values m)
    \/ exists i r, List.nth_error results i = Some r
                   /\ x = stored (now (base + i)%nat) (base + i) r.
Proof.
  induction results as [|r0 rest IH]; intros base m x Hx; simpl in Hx; [now left|].
  apply IH in Hx. destruct Hx as [Hx|(i & r & Hi & Hx)].
  - rewrite record_result_set in Hx. apply In_values_set in Hx.
    destruct Hx as [Hx|Hx]; [|now left].
    right. exists 0%nat, r0. rewrite Nat.add_0_r. split; [reflexivity|assumption].
  - right. exists (S i), r.
    replace (base + S i)%nat with (S base + i)%nat by lia. now split.
Qed.

Lemma monitorServices_store env m :
  serviceStatuses (fst (monitorServices env m))
  = forEach_from (faultAt env) 0 (probe_all env) (serviceStatuses m).
Proof. reflexivity. Qed.

Lemma monitorServices_clients env m :
  clients (fst (monitorServices env m)) = clients m.
Proof. reflexivity. Qed.

(** The store after a cycle holds, under each target's name, the record of
    that target's result. *)
Lemma monitorServices_get env m i T :
  List.nth_error services i = Some T ->
  JsMap.get (svc_name T) (serviceStatuses (fst (monitorServices env m)))
  = Some (stored (faultAt env i) i
            (checkServiceHealth T (clockOf env T) (settles env T))).
Proof.
  intros HT. rewrite monitorServices_store.
  rewrite <- (serviceName_target i T HT).
  assert (Hlt : (i < List.length services)%nat)
    by (apply List.nth_error_Some; congruence).
  apply (forEach_from_get (faultAt env) (probe_all env) 0%nat).
  - now apply probe_all_nth.
  - rewrite probe_all_length. intros j Hj Hne. simpl.
    now apply serviceName_distinct.
Qed.

Lemma step_single_keyed ev m :
  single_keyed (serviceStatuses m) ->
  single_keyed (serviceStatuses (fst (step ev m))).
Proof.
  intros Hm. destruct ev as [env|ws|ws]; [|exact Hm|exact Hm].
  change (step (Cycle env) m) with (monitorServices env m).
  rewrite monitorServices_store. now apply forEach_from_single_keyed.
Qed.

Lemma run_single_keyed evs :
  forall m, single_keyed (serviceStatuses m) ->
            single_keyed (serviceStatuses (run evs m)).
Proof.
  induction evs as [|ev rest IH]; intros m Hm; simpl; [assumption|].
  apply IH. now apply step_single_keyed.
Qed.

Lemma initial_single_keyed : single_keyed (serviceStatuses initial).
Proof. intros k. simpl. unfold JsMap.entries_for. simpl. lia. Qed.

Lemma probe_all_inv env i r :
  List.nth_error (probe_all env) i = Some r ->
  exists T, r = checkServiceHealth T (clockOf env T) (settles env T).
Proof.
  unfold probe_all. rewrite List.nth_error_map.
  destruct (List.nth_error services i) as [T|]; simpl; intros H; inversion H.
  now exists T.
Qed.

Lemma stored_healthy_no_error env now i j r :
  List.nth_error (probe_all env) i = Some r ->
  status (stored now j r) = healthy -> error (stored now j r) = None.
Proof.
  intros Hr. destruct (probe_all_inv env i r Hr) as [T ->].
  destruct (checkServiceHealth T (clockOf env T) (settles env T)) as [st|e] eqn:E;
    simpl; [|discriminate].
  now apply (checkServiceHealth_healthy_no_error T (clockOf env T) (settles env T)).
Qed.

Lemma step_error_free ev m :
  error_free_when_healthy (serviceStatuses m) ->
  error_free_when_healthy (serviceStatuses (fst (step ev m))).
Proof.
  intros Hm. destruct ev as [env|ws|ws]; [|exact Hm|exact Hm].
  change (step (Cycle env) m) with (monitorServices env m).
  rewrite monitorServices_store. intros st Hin.
  apply forEach_from_In_values in Hin.
  destruct Hin as [Hin|(i & r & Hi & ->)].
  - now apply Hm.
  - now apply (stored_healthy_no_error env _ i).
Qed.

Lemma run_error_free evs :
  forall m, error_free_when_healthy (serviceStatuses m) ->
            error_free_when_healthy (serviceStatuses (run evs m)).
Proof.
  induction evs as [|ev rest IH]; intros m Hm; simpl; [assumption|].
  apply IH. now apply step_error_free.
Qed.

Lemma monitorServices_has_entry env m T :
  In T services ->
  (1 <= JsMap.entries_for (svc_name T)
          (serviceStatuses (fst (monitorServices env m))))%nat.
Proof.
  intros HT. apply List.In_nth_error in HT. destruct HT as [i Hi].
  eapply get_entries_for. now apply (monitorServices_get env m i T).
Qed.

Lemma run_has_entry T (HT : In T services) evs :
  forall m,
    List.existsb is_cycle evs = true
    \/ (1 <= JsMap.entries_for (svc_name T) (serviceStatuses m))%nat ->
    (1 <= JsMap.entries_for (svc_name T) (serviceStatuses (run evs m)))%nat.
Proof.
  induction evs as [|ev rest IH]; intros m H; simpl in *.
  - destruct H as [H|H]; [discriminate | exact H].
  - apply IH. destruct ev as [env|ws|ws]; simpl in H.
    + right. change (step (Cycle env) m) with (monitorServices env m).
      now apply monitorServices_has_entry.
    + exact H.
    + exact H.
Qed.

(** ** Polling scheduler and status store *)

(** C4.  In any cycle, when the prober's promise for a registered target is
    rejected, the scheduler stores under that target's name the synthesized
    record ([status = unknown], [responseTime = 0], [uptime = 0], [error =
    'Health check failed']); the cycle has one result per registered target
    and leaves exactly one entry for each of them in the store. *)
Theorem monitorServices_fault evs env i T e :
  List.nth_error services i = Some T ->
  List.nth_error (probe_all env) i = Some (Rejected e) ->
  JsMap.get (svc_name T)
    (serviceStatuses (fst (monitorServices env (run evs initial))))
  = Some {| name := svc_name T; status := unknown; responseTime := 0;
            lastCheck := faultAt env i; uptime := 0;
            error := Some "Health check failed" |}
  /\ List.length (probe_all env) = List.length services
  /\ (forall T', In T' services ->
        JsMap.entries_for (svc_name T')
          (serviceStatuses (fst (monitorServices env (run evs initial)))) = 1%nat).
Proof.
  intros HT Hr. split; [|split].
  - rewrite (monitorServices_get env _ i T HT).
    rewrite (probe_all_nth env i T HT) in Hr. inversion Hr as [Hr'].
    rewrite Hr'. simpl. now rewrite (serviceName_target i T HT).
  - apply probe_all_length.
  - intros T' HT'.
    pose proof (monitorServices_has_entry env (run evs initial) T' HT') as Hge.
    assert (Hle : single_keyed
                    (serviceStatuses (fst (monitorServices env (run evs initial))))).
    { apply (step_single_keyed (Cycle env)).
      apply run_single_keyed, initial_single_keyed. }
    specialize (Hle (svc_name T')). lia.
Qed.

Lemma monitorServices_fault_witness :
  JsMap.get "backend"
    (serviceStatuses (fst (monitorServices env_faulting (run [] initial))))
  = Some {| name := "backend"; status := unknown; responseTime := 0;
            lastCheck := 1013; uptime := 0;
            error := Some "Health check failed" |}.
Proof.
  destruct (monitorServices_fault [] env_faulting 0%nat
              (mkTarget "backend" "http://localhost:5000/health")
              (ErrorObject "Cannot read properties of undefined (reading 'message')")
              eq_refl eq_refl)
    as [H _].
  exact H.
Defined.

(** C6.  Every record found in the store, after any sequence of events,
    carries an [error] only when its status is not [healthy]: a healthy
    record has none. *)
Theorem healthy_has_no_error evs st :
  In st (JsMap.values (serviceStatuses (run evs initial))) ->
  status st = healthy ->
  error st = None.
Proof.
  apply (run_error_free evs initial).
  intros x [].
Qed.

Lemma healthy_has_no_error_witness :
  error {| name := "backend"; status := healthy; responseTime := 12;
           lastCheck := 1012; uptime := 100; error := None |} = None.
Proof.
  apply (healthy_has_no_error [Cycle (env_answering 200 1)]).
  - vm_compute. left. reflexivity.
  - reflexivity.
Defined.

(** ** Facts about the live set and the broadcast *)

Lemma set_add_In ws s : In ws (set_add ws s).
Proof.
  unfold set_add. destruct (List.existsb (Nat.eqb ws) s) eqn:E.
  - apply List.existsb_exists in E. destruct E as (x & Hx & Heq).
    apply Nat.eqb_eq in Heq. now subst x.
  - apply List.in_or_app. right. now left.
Qed.

Lemma set_add_NoDup ws s : NoDup s -> NoDup (set_add ws s).
Proof.
  intros Hs. unfold set_add. destruct (List.existsb (Nat.eqb ws) s) eqn:E; [assumption|].
  apply List.NoDup_app; [assumption | repeat constructor; intros [] |].
  intros a Ha [Heq|[]]. subst a.
  assert (Hex : List.existsb (Nat.eqb ws) s = true).
  { apply List.existsb_exists. exists ws. split; [assumption | apply Nat.eqb_refl]. }
  congruence.
Qed.

Lemma set_delete_not_In ws s : ~ In ws (set_delete ws s).
Proof.
  unfold set_delete. intros H. apply List.filter_In in H. destruct H as [_ H].
  now rewrite Nat.eqb_refl in H.
Qed.

Lemma step_clients_NoDup ev m :
  NoDup (clients m) -> NoDup (clients (fst (step ev m))).
Proof.
  intros Hm. destruct ev as [env|ws|ws].
  - exact Hm.
  - now apply set_add_NoDup.
  - now apply List.NoDup_filter.
Qed.

Lemma run_clients_NoDup evs :
  forall m, NoDup (clients m) -> NoDup (clients (run evs m)).
Proof.
  induction evs as [|ev rest IH]; intros m Hm; simpl; [assumption|].
  apply IH. now apply step_clients_NoDup.
Qed.

Lemma broadcastStatus_absent store rs now c cs :
  ~ In c cs -> sends_to c (broadcastStatus store cs rs now) = [].
Proof.
  unfold broadcastStatus, sends_to.
  induction cs as [|c0 rest IH]; intros Hc; simpl; [reflexivity|].
  rewrite List.filter_app, IH by (intros H; apply Hc; now right).
  rewrite List.app_nil_r.
  destruct (rs c0 =? 1); simpl; [|reflexivity].
  destruct (Nat.eqb_spec c0 c) as [->|_]; [|reflexivity].
  exfalso. apply Hc. now left.
Qed.

Lemma broadcastStatus_sends_to store rs now c cs :
  NoDup cs -> In c cs ->
  sends_to c (broadcastStatus store cs rs now)
  = if rs c =? 1 then [mkSend c (statusData store now)] else [].
Proof.
  intros Hnd. induction Hnd as [|c0 rest Hnot Hnd IH]; intros Hin; [destruct Hin|].
  destruct Hin as [->|Hin].
  - pose proof (broadcastStatus_absent store rs now c rest Hnot) as Hrest.
    unfold broadcastStatus, sends_to in *. simpl.
    rewrite List.filter_app, Hrest, List.app_nil_r.
    destruct (rs c =? 1); simpl; [|reflexivity].
    now rewrite Nat.eqb_refl.
  - specialize (IH Hin).
    unfold broadcastStatus, sends_to in *. simpl.
    rewrite List.filter_app, IH.
    assert (Hne : Nat.eqb c0 c = false).
    { apply Nat.eqb_neq. intros ->. contradiction. }
    destruct (rs c0 =? 1); simpl; [rewrite Hne|]; reflexivity.
Qed.

Lemma broadcastStatus_payload store rs now cs :
  Forall (fun s => payload s = statusData store now)
         (broadcastStatus store cs rs now).
Proof.
  unfold broadcastStatus.
  induction cs as [|c0 rest IH]; simpl; [constructor|].
  apply List.Forall_app. split; [|exact IH].
  destruct (rs c0 =? 1); repeat constructor.
Qed.

(** ** Broadcast hub *)

(** C7.  When a cycle completes, every live connection, that is every socket
    of the live set that is open ([readyState] 1), is sent exactly one
    message.  The message has the type [status], the values of the store as
    the cycle left it, and the broadcast time; every message of the broadcast
    is this same object; and the store, hence the message, holds for every
    registered target the record this cycle produced for it. *)
Theorem monitorServices_broadcast evs env c :
  In c (clients (run evs initial)) ->
  readyState env c = 1 ->
  sends_to c (snd (monitorServices env (run evs initial)))
  = [mkSend c
       {| type := "status";
          data := JsMap.values
                    (serviceStatuses (fst (monitorServices env (run evs initial))));
          timestamp := Some (broadcastAt env) |}]
  /\ Forall (fun s => payload s
                      = {| type := "status";
                           data := JsMap.values
                                     (serviceStatuses
                                        (fst (monitorServices env (run evs initial))));
                           timestamp := Some (broadcastAt env) |})
            (snd (monitorServices env (run evs initial)))
  /\ (forall i T, List.nth_error services i = Some T ->
        JsMap.get (svc_name T)
          (serviceStatuses (fst (monitorServices env (run evs initial))))
        = Some (stored (faultAt env i) i
                  (checkServiceHealth T (clockOf env T) (settles env T)))
        /\ In (stored (faultAt env i) i
                 (checkServiceHealth T (clockOf env T) (settles env T)))
              (JsMap.values
                 (serviceStatuses (fst (monitorServices env (run evs initial)))))).
Proof.
  intros Hin Hopen. split; [|split].
  - change (snd (monitorServices env (run evs initial)))
      with (broadcastStatus
              (serviceStatuses (fst (monitorServices env (run evs initial))))
              (clients (run evs initial)) (readyState env) (broadcastAt env)).
    rewrite broadcastStatus_sends_to;
      [|apply run_clients_NoDup; constructor | exact Hin].
    rewrite Hopen. reflexivity.
  - apply broadcastStatus_payload.
  - intros i T HT.
    pose proof (monitorServices_get env (run evs initial) i T HT) as Hget.
    split; [exact Hget|]. eapply get_In_values. exact Hget.
Qed.

Lemma monitorServices_broadcast_witness :
  sends_to 4%nat
    (snd (monitorServices (env_answering 200 1)
            (run [Connection 4%nat; Connection 5%nat; Close 5%nat] initial)))
  = [mkSend 4%nat
       {| type := "status";
          data := JsMap.values
                    (serviceStatuses
                       (fst (monitorServices (env_answering 200 1)
                               (run [Connection 4%nat; Connection 5%nat; Close 5%nat]
                                  initial))));
          timestamp := Some 1014 |}].
Proof.
  destruct (monitorServices_broadcast
              [Connection 4%nat; Connection 5%nat; Close 5%nat]
              (env_answering 200 1) 4%nat)
    as [H _]; [now left | reflexivity | exact H].
Defined.

(** C9.  When a client connects, the handler puts the socket in the live set
    and sends it one message, of type [status], whose data are the values of
    the store at that moment; the store is left as it was, so the message is
    out before any later cycle touches it. *)
Theorem on_connection_snapshot ws m :
  In ws (clients (fst (on_connection ws m)))
  /\ snd (on_connection ws m)
     = [mkSend ws {| type := "status";
                     data := JsMap.values (serviceStatuses m);
                     timestamp := None |}]
  /\ List.length (sends_to ws (snd (on_connection ws m))) = 1%nat
  /\ serviceStatuses (fst (on_connection ws m)) = serviceStatuses m.
Proof.
  split; [apply set_add_In|]. split; [reflexivity|]. split; [|reflexivity].
  unfold on_connection, sends_to. simpl. now rewrite Nat.eqb_refl.
Qed.

(** ** Query surface *)

Lemma filter_length_all {A : Type} (f : A -> bool) (l : list A) :
  List.length (List.filter f l) = List.length l <-> Forall (fun x => f x = true) l.
Proof.
  split.
  - intros H. apply List.Forall_forall. apply List.forallb_forall.
    now apply List.filter_length_forallb.
  - intros H. rewrite List.forallb_filter_id; [reflexivity|].
    apply List.forallb_forall. now apply List.Forall_forall.
Qed.

Lemma Health_eqb_eq a b : Health_eqb a b = true <-> a = b.
Proof. destruct a, b; simpl; split; intros H; congruence. Qed.

(** C10.  In the summary of [/api/status], [unhealthyServices] is
    [totalServices] minus [healthyServices], which is the number of entries
    whose status is not [healthy] ([unknown] included); [overallHealth] is
    ['healthy'] exactly when every entry is healthy; on the empty store the
    summary is 0, 0, 0 and ['healthy']. *)
Theorem api_status_summary (m : Store) :
  unhealthyServices (api_status m)
  = totalServices (api_status m) - healthyServices (api_status m)
  /\ unhealthyServices (api_status m)
     = Z.of_nat (List.length
                   (List.filter (fun s => negb (Health_eqb (status s) healthy))
                      (JsMap.values m)))
  /\ (overallHealth (api_status m) = "healthy"
      <-> Forall (fun s => status s = healthy) (JsMap.values m))
  /\ api_status JsMap.empty
     = {| totalServices := 0; healthyServices := 0; unhealthyServices := 0;
          overallHealth := "healthy" |}.
Proof.
  split; [reflexivity|]. split; [|split; [|reflexivity]].
  - unfold api_status; simpl.
    pose proof (List.filter_length (fun s => Health_eqb (status s) healthy)
                  (JsMap.values m)) as H.
    lia.
  - unfold api_status; simpl.
    destruct (Z.eqb_spec
                (Z.of_nat (List.length
                   (List.filter (fun s => Health_eqb (status s) healthy)
                      (JsMap.values m))))
                (Z.of_nat (List.length (JsMap.values m)))) as [Heq|Hne].
    + split; [intros _|reflexivity].
      apply Nat2Z.inj in Heq. apply filter_length_all in Heq.
      eapply List.Forall_impl; [|exact Heq].
      intros s Hs. now apply Health_eqb_eq.
    + split; [discriminate|]. intros Hall. exfalso. apply Hne. f_equal.
      apply filter_length_all.
      eapply List.Forall_impl; [|exact Hall].
      intros s Hs. now apply Health_eqb_eq.
Qed.

(** * Further properties *)

(** ** What a cycle leaves in the store *)

Lemma forEach_from_fresh env :
  forEach_from (faultAt env) 0 (probe_all env) JsMap.empty = cycle_store env.
Proof.
  unfold probe_all, cycle_store, cycle_records, registry_names, services.
  cbn [List.map forEach_from records_from].
  rewrite !record_result_set. reflexivity.
Qed.

Lemma forEach_from_overwrite env (m : Store) :
  JsMap.keys m = registry_names ->
  forEach_from (faultAt env) 0 (probe_all env) m = cycle_store env.
Proof.
  unfold JsMap.keys, registry_names, services. cbn [List.map]. intros Hk.
  do 7 (destruct m as [|[? ?] m]; [discriminate Hk|];
        cbn [List.map fst] in Hk;
        injection Hk as ? Hk; subst).
  destruct m; [|discriminate Hk].
  unfold probe_all, cycle_store, cycle_records, registry_names, services.
  cbn [List.map forEach_from records_from].
  rewrite !record_result_set. reflexivity.
Qed.

Lemma cycle_store_keys env : JsMap.keys (cycle_store env) = registry_names.
Proof. reflexivity. Qed.

Lemma cycle_store_values env : JsMap.values (cycle_store env) = cycle_records env.
Proof. reflexivity. Qed.

Lemma last_cycle_from_seen seen evs :
  last_cycle_from seen evs
  = match last_cycle_from None evs with
    | Some env => Some env
    | None => seen
    end.
Proof.
  revert seen. induction evs as [|ev rest IH]; intros seen; [reflexivity|].
  destruct ev as [env|ws|ws]; simpl.
  - rewrite (IH (Some env)). now destruct (last_cycle_from None rest).
  - apply IH.
  - apply IH.
Qed.

Lemma last_cycle_is_cycle evs :
  List.existsb is_cycle evs
  = match last_cycle evs with Some _ => true | None => false end.
Proof.
  unfold last_cycle. induction evs as [|ev rest IH]; [reflexivity|].
  destruct ev as [env|ws|ws]; simpl; try exact IH.
  rewrite last_cycle_from_seen. now destruct (last_cycle_from None rest).
Qed.

Lemma monitorServices_store_fresh env m :
  shaped (serviceStatuses m) ->
  serviceStatuses (fst (monitorServices env m)) = cycle_store env.
Proof.
  intros [He|Hk]; rewrite monitorServices_store.
  - rewrite He. apply forEach_from_fresh.
  - now apply forEach_from_overwrite.
Qed.

Lemma run_store evs :
  forall m,
    shaped (serviceStatuses m) ->
    serviceStatuses (run evs m)
    = match last_cycle evs with
      | Some env => cycle_store env
      | None => serviceStatuses m
      end.
Proof.
  unfold last_cycle.
  induction evs as [|ev rest IH]; intros m Hm; [reflexivity|].
  destruct ev as [env|ws|ws]; cbn [run last_cycle_from].
  - change (step (Cycle env) m) with (monitorServices env m).
    rewrite IH by (right; rewrite monitorServices_store_fresh by assumption;
                   apply cycle_store_keys).
    rewrite (last_cycle_from_seen (Some env)).
    destruct (last_cycle_from None rest); [reflexivity|].
    now apply monitorServices_store_fresh.
  - now rewrite IH.
  - now rewrite IH.
Qed.

Lemma run_store_initial evs :
  serviceStatuses (run evs initial)
  = match last_cycle evs with
    | Some env => cycle_store env
    | None => JsMap.empty
    end.
Proof. apply (run_store evs initial). now left. Qed.

(** X1.  After any sequence of cycles, connections and disconnections, the
    store is the one the latest cycle built: its records under the registry
    names, in registry order.  Before the first cycle it is empty; nothing
    an earlier cycle wrote is left, and connection traffic changes nothing. *)
Theorem store_is_latest_cycle evs :
  serviceStatuses (run evs initial)
  = match last_cycle evs with
    | Some env => List.combine registry_names (cycle_records env)
    | None => []
    end.
Proof. apply run_store_initial. Qed.

(** X2.  The snapshot a connecting client is sent holds the records of the
    latest completed cycle, in registry order, and is the empty list when no
    cycle has completed yet. *)
Theorem connection_snapshot_is_latest_cycle evs ws :
  snd (step (Connection ws) (run evs initial))
  = [mkSend ws {| type := "status";
                  data := match last_cycle evs with
                          | Some env => cycle_records env
                          | None => []
                          end;
                  timestamp := None |}].
Proof.
  cbn [step on_connection snd]. rewrite run_store_initial.
  destruct (last_cycle evs) as [env|]; [|reflexivity].
  now rewrite cycle_store_values.
Qed.

(** ** The records of a cycle *)

Lemma records_from_nth env targets :
  forall base i st,
    List.nth_error (records_from env base targets) i = Some st ->
    exists T,
      List.nth_error targets i = Some T
      /\ st = stored (faultAt env (base + i)%nat) (base + i)
                (checkServiceHealth T (clockOf env T) (settles env T)).
Proof.
  induction targets as [|T0 rest IH]; intros base i st H.
  - destruct i; discriminate.
  - destruct i as [|i]; simpl in H.
    + inversion H. exists T0. rewrite Nat.add_0_r. now split.
    + apply IH in H. destruct H as (T & HT & ->). exists T.
      replace (base + S i)%nat with (S base + i)%nat by lia. now split.
Qed.

Lemma records_from_length env targets :
  forall base, List.length (records_from env base targets) = List.length targets.
Proof.
  induction targets as [|T0 rest IH]; intros base; simpl; [reflexivity|].
  now rewrite IH.
Qed.

Lemma cycle_records_In env st :
  In st (cycle_records env) ->
  exists i T,
    List.nth_error services i = Some T
    /\ List.nth_error (cycle_records env) i = Some st
    /\ st = stored (faultAt env i) i
              (checkServiceHealth T (clockOf env T) (settles env T)).
Proof.
  intros Hin. apply List.In_nth_error in Hin. destruct Hin as [i Hi].
  destruct (records_from_nth env services 0%nat i st Hi) as (T & HT & Hst).
  exists i, T. now repeat split.
Qed.

Lemma stored_name now i T clk got :
  List.nth_error services i = Some T ->
  name (stored now i (checkServiceHealth T clk got)) = svc_name T.
Proof.
  intros HT. destruct got as [code|[msg|]]; simpl;
    [reflexivity | reflexivity | now apply serviceName_target].
Qed.

Lemma stored_coherent now i T clk got :
  coherent (stored now i (checkServiceHealth T clk got)).
Proof.
  destruct got as [code|[msg|]]; simpl.
  - left. simpl. repeat split. destruct (code =? 200); auto.
  - right; left. simpl. repeat split. now exists msg.
  - right; right. simpl. now repeat split.
Qed.

(** A stored record is healthy exactly when the request resolved. *)
Lemma stored_healthy_iff now i T clk got :
  status (stored now i (checkServiceHealth T clk got)) = healthy
  <-> exists code, got = Fulfilled code.
Proof.
  destruct got as [code|[msg|]]; simpl; split; intros H;
    try discriminate; try reflexivity.
  - now exists code.
  - destruct H as [code H]; discriminate.
  - destruct H as [code H]; discriminate.
Qed.

Lemma records_from_healthy env targets :
  forall base,
    Forall (fun st => status st = healthy) (records_from env base targets)
    <-> Forall (fun T => exists code, settles env T = Fulfilled code) targets.
Proof.
  induction targets as [|T0 rest IH]; intros base; simpl.
  - split; constructor.
  - split; intros H; inversion H; subst; constructor.
    + now apply (stored_healthy_iff (faultAt env base) base T0 (clockOf env T0)).
    + now apply (IH (S base)).
    + now apply stored_healthy_iff.
    + now apply IH.
Qed.

(** ** Lookups in a store built by [combine] *)

Lemma get_combine_nth {V : Type} (ks : list string) :
  forall (vs : list V) i k v,
    NoDup ks ->
    List.nth_error ks i = Some k ->
    List.nth_error vs i = Some v ->
    JsMap.get k (List.combine ks vs) = Some v.
Proof.
  induction ks as [|k0 ks IH]; intros vs i k v Hnd Hk Hv.
  - destruct i; discriminate.
  - destruct vs as [|v0 vs]; [destruct i; discriminate|].
    inversion Hnd as [|? ? Hnot Hnd']; subst.
    destruct i as [|i]; simpl in Hk, Hv |- *.
    + inversion Hk; inversion Hv; subst. now rewrite String.eqb_refl.
    + destruct (String.eqb_spec k0 k) as [->|Hne].
      * exfalso. apply Hnot. eapply List.nth_error_In; eauto.
      * now apply (IH vs i).
Qed.

Lemma get_combine_inv {V : Type} (ks : list string) :
  forall (vs : list V) k v,
    JsMap.get k (List.combine ks vs) = Some v ->
    exists i, List.nth_error ks i = Some k /\ List.nth_error vs i = Some v.
Proof.
  induction ks as [|k0 ks IH]; intros vs k v H; [discriminate|].
  destruct vs as [|v0 vs]; [discriminate|]. simpl in H.
  destruct (String.eqb_spec k0 k) as [->|Hne].
  - inversion H. now exists 0%nat.
  - apply IH in H. destruct H as (i & Hk & Hv). now exists (S i).
Qed.

Lemma get_combine_None {V : Type} (ks : list string) :
  forall (vs : list V) k,
    List.length ks = List.length vs ->
    (JsMap.get k (List.combine ks vs) = None
     <-> List.existsb (String.eqb k) ks = false).
Proof.
  induction ks as [|k0 ks IH]; intros vs k Hlen.
  - simpl. tauto.
  - destruct vs as [|v0 vs]; [discriminate|]. simpl.
    rewrite (String.eqb_sym k k0).
    destruct (String.eqb k0 k); simpl; [split; discriminate|].
    apply IH. simpl in Hlen. lia.
Qed.

Lemma registry_names_NoDup : NoDup registry_names.
Proof.
  unfold registry_names, services. cbn [List.map].
  repeat (constructor; [cbn [In]; intros H; repeat destruct H as [H|H];
                        first [discriminate H | contradiction] |]).
  constructor.
Qed.

Lemma cycle_records_length env :
  List.length (cycle_records env) = List.length registry_names.
Proof.
  unfold cycle_records, registry_names.
  now rewrite records_from_length, List.length_map.
Qed.

(** ** What the store and the query surface guarantee *)

(** X3.  Every record in the store, after any sequence of events, has one of
    three shapes: healthy with uptime 100 or 90 and no error; unhealthy with
    uptime 0 and an error; unknown with uptime 0, response time 0 and the
    error 'Health check failed'. *)
Theorem stored_records_coherent evs st :
  In st (JsMap.values (serviceStatuses (run evs initial))) ->
  coherent st.
Proof.
  rewrite run_store_initial.
  destruct (last_cycle evs) as [env|]; [|intros []].
  rewrite cycle_store_values. intros Hin.
  apply cycle_records_In in Hin. destruct Hin as (i & T & _ & _ & ->).
  apply stored_coherent.
Qed.

Lemma stored_records_coherent_witness :
  coherent {| name := "backend"; status := unknown; responseTime := 0;
              lastCheck := 1013; uptime := 0;
              error := Some "Health check failed" |}.
Proof.
  apply (stored_records_coherent [Cycle (env_answering 200 1); Cycle env_faulting]).
  vm_compute. left. reflexivity.
Defined.

(** X4.  Whatever key of the store a record is found under, the record's
    own [name] is that key, and the key is a name of the registry: the
    fallback key 'unknown' is never written. *)
Theorem store_key_is_record_name evs k st :
  JsMap.get k (serviceStatuses (run evs initial)) = Some st ->
  name st = k /\ registered k = true /\ k <> "unknown".
Proof.
  rewrite run_store_initial.
  destruct (last_cycle evs) as [env|]; [|discriminate].
  intros Hget. apply get_combine_inv in Hget. destruct Hget as (i & Hk & Hst).
  apply (records_from_nth env services 0%nat) in Hst.
  destruct Hst as (T & HT & ->). simpl.
  unfold registry_names in Hk. rewrite List.nth_error_map, HT in Hk.
  inversion Hk as [Hk']. clear Hk.
  assert (Hreg : registered (svc_name T) = true).
  { unfold registered. apply List.existsb_exists. exists (svc_name T).
    split; [|apply String.eqb_refl].
    unfold registry_names. apply List.in_map.
    eapply List.nth_error_In; eauto. }
  split; [now apply stored_name|]. split; [exact Hreg|].
  intros Heq. rewrite Heq in Hreg. vm_compute in Hreg. discriminate.
Qed.

Lemma store_key_is_record_name_witness :
  name {| name := "core"; status := unhealthy; responseTime := 12;
          lastCheck := 1012; uptime := 0;
          error := Some "Request failed with status code 503" |} = "core"
  /\ registered "core" = true /\ "core" <> "unknown".
Proof.
  apply (store_key_is_record_name [Cycle (env_answering 503 1)] "core").
  vm_compute. reflexivity.
Defined.

(** X5.  [GET /api/service/:name] answers 200 exactly when a cycle has
    completed and the name is one of the registry; before the first cycle,
    and for every other name at any time, it answers 404. *)
Theorem api_service_status evs n :
  http_status (api_service n (serviceStatuses (run evs initial)))
  = if List.existsb is_cycle evs && registered n then 200 else 404.
Proof.
  unfold api_service. rewrite run_store_initial, last_cycle_is_cycle.
  destruct (last_cycle evs) as [env|]; [|reflexivity]. cbn [andb].
  pose proof (get_combine_None registry_names (cycle_records env) n
                (eq_sym (cycle_records_length env))) as Hnone.
  change (List.combine registry_names (cycle_records env))
    with (cycle_store env) in Hnone.
  change (List.existsb (String.eqb n) registry_names)
    with (registered n) in Hnone.
  destruct (registered n) eqn:Hr.
  - destruct (JsMap.get n (cycle_store env)) as [st|] eqn:Hg; [reflexivity|].
    destruct Hnone as [Hn _]. discriminate (Hn eq_refl).
  - destruct Hnone as [_ Hnone]. now rewrite (Hnone eq_refl).
Qed.

(** X6.  Every record listed by [GET /api/status] can be fetched by its name
    from [GET /api/service/:name], which answers 200 with that same record. *)
Theorem listed_service_is_found evs st :
  In st (listed (api_status_reply (serviceStatuses (run evs initial)))) ->
  api_service (name st) (serviceStatuses (run evs initial))
  = {| http_status := 200; success := true; message := None; service := Some st |}.
Proof.
  unfold api_status_reply, listed, api_service. rewrite run_store_initial.
  destruct (last_cycle evs) as [env|]; [|intros []].
  rewrite cycle_store_values. intros Hin.
  apply cycle_records_In in Hin. destruct Hin as (i & T & HT & Hi & Hst).
  assert (Hname : name st = svc_name T) by (rewrite Hst; now apply stored_name).
  assert (Hget : JsMap.get (name st) (cycle_store env) = Some st).
  { apply (get_combine_nth registry_names (cycle_records env) i).
    - apply registry_names_NoDup.
    - unfold registry_names. now rewrite List.nth_error_map, HT, Hname.
    - exact Hi. }
  now rewrite Hget.
Qed.

Lemma listed_service_is_found_witness :
  api_service "guest"
    (serviceStatuses (run [Cycle (env_answering 204 1)] initial))
  = {| http_status := 200; success := true; message := None;
       service := Some {| name := "guest"; status := healthy; responseTime := 12;
                          lastCheck := 1012; uptime := 90; error := None |} |}.
Proof.
  apply (listed_service_is_found [Cycle (env_answering 204 1)]
           {| name := "guest"; status := healthy; responseTime := 12;
              lastCheck := 1012; uptime := 90; error := None |}).
  vm_compute. do 3 right. left. reflexivity.
Defined.

Lemma forallb_false {A : Type} (f : A -> bool) (l : list A) :
  List.forallb f l = false <-> exists x, In x l /\ f x = false.
Proof.
  induction l as [|a l IH]; simpl.
  - split; [discriminate | intros (x & [] & _)].
  - destruct (f a) eqn:E; simpl.
    + rewrite IH. split; intros (x & Hx & Hf); exists x.
      * split; [now right | exact Hf].
      * destruct Hx as [->|Hx]; [congruence | now split].
    + split; [intros _; exists a; split; [now left | exact E] | reflexivity].
Qed.

Lemma overallHealth_forallb (m : Store) :
  overallHealth (api_status m)
  = if List.forallb (fun s => Health_eqb (status s) healthy) (JsMap.values m)
    then "healthy" else "degraded".
Proof.
  unfold api_status; simpl.
  destruct (Z.eqb_spec
              (Z.of_nat (List.length
                 (List.filter (fun s => Health_eqb (status s) healthy)
                    (JsMap.values m))))
              (Z.of_nat (List.length (JsMap.values m)))) as [Heq|Hne].
  - apply Nat2Z.inj in Heq. apply List.filter_length_forallb in Heq.
    now rewrite Heq.
  - destruct (List.forallb (fun s => Health_eqb (status s) healthy)
                (JsMap.values m)) eqn:E; [|reflexivity].
    exfalso. apply Hne. f_equal. now rewrite List.forallb_filter_id.
Qed.

Lemma records_from_forallb env targets :
  forall base,
    List.forallb (fun s => Health_eqb (status s) healthy)
      (records_from env base targets)
    = List.forallb (fun T => resolved (settles env T)) targets.
Proof.
  induction targets as [|T0 rest IH]; intros base; simpl; [reflexivity|].
  rewrite IH. f_equal. now destruct (settles env T0) as [code|[msg|]].
Qed.

Lemma resolved_true r : resolved r = true <-> exists code, r = Fulfilled code.
Proof.
  destruct r as [code|e]; simpl; split; intros H; try discriminate.
  - now exists code.
  - reflexivity.
  - destruct H as [code H]. discriminate H.
Qed.

Lemma resolved_false r : resolved r = false <-> exists e, r = Rejected e.
Proof.
  destruct r as [code|e]; simpl; split; intros H; try discriminate.
  - destruct H as [e H]. discriminate H.
  - now exists e.
  - reflexivity.
Qed.

(** X7.  Once a cycle has completed, [GET /api/status] reports
    ['healthy'] overall exactly when, in the latest cycle, the request to
    every registered target resolved; it reports ['degraded'] exactly when
    the request to some registered target was rejected; it reports nothing
    else. *)
Theorem overall_health_follows_latest_cycle evs env :
  last_cycle evs = Some env ->
  (overallHealth (api_status (serviceStatuses (run evs initial))) = "healthy"
   <-> forall T, In T services -> exists code, settles env T = Fulfilled code)
  /\ (overallHealth (api_status (serviceStatuses (run evs initial))) = "degraded"
      <-> exists T, In T services /\ exists e, settles env T = Rejected e)
  /\ overallHealth (api_status (serviceStatuses (run evs initial)))
     = (if List.forallb (fun T => resolved (settles env T)) services
        then "healthy" else "degraded").
Proof.
  intros Hlast.
  assert (Hval : overallHealth (api_status (serviceStatuses (run evs initial)))
                 = (if List.forallb (fun T => resolved (settles env T)) services
                    then "healthy" else "degraded")).
  { rewrite overallHealth_forallb, run_store_initial, Hlast, cycle_store_values.
    unfold cycle_records. now rewrite records_from_forallb. }
  rewrite Hval.
  destruct (List.forallb (fun T => resolved (settles env T)) services) eqn:E.
  - rewrite List.forallb_forall in E. split; [|split; [|reflexivity]].
    + split; [intros _ T HT; apply resolved_true; now apply E | reflexivity].
    + split; [discriminate|]. intros (T & HT & e & He).
      apply E in HT. rewrite He in HT. discriminate HT.
  - pose proof E as E'. apply forallb_false in E'. destruct E' as (T & HT & HF).
    apply resolved_false in HF. split; [|split; [|reflexivity]].
    + split; [discriminate|]. intros Hall.
      destruct (Hall T HT) as [code Hc]. destruct HF as [e He]. congruence.
    + split; [intros _; now exists T | reflexivity].
Qed.

Lemma overall_health_follows_latest_cycle_witness :
  overallHealth
    (api_status
       (serviceStatuses
          (run [Cycle (env_answering 404 1); Cycle env_faulting] initial)))
  = "degraded".
Proof.
  destruct (overall_health_follows_latest_cycle
              [Cycle (env_answering 404 1); Cycle env_faulting] env_faulting eq_refl)
    as (_ & _ & H).
  exact H.
Defined.

(** X8.  The summary of [GET /api/status] counts no service before the first
    cycle and all seven registered services ever after; the healthy and
    unhealthy counts lie between 0 and the total, and the list returned
    beside the summary has as many records as the total says. *)
Theorem api_status_total evs :
  totalServices (api_status (serviceStatuses (run evs initial)))
  = (if List.existsb is_cycle evs then 7 else 0)
  /\ 0 <= healthyServices (api_status (serviceStatuses (run evs initial)))
     <= totalServices (api_status (serviceStatuses (run evs initial)))
  /\ 0 <= unhealthyServices (api_status (serviceStatuses (run evs initial)))
     <= totalServices (api_status (serviceStatuses (run evs initial)))
  /\ Z.of_nat (List.length
                 (listed (api_status_reply (serviceStatuses (run evs initial)))))
     = totalServices (api_status (serviceStatuses (run evs initial))).
Proof.
  split; [|split; [|split; [|reflexivity]]].
  - rewrite run_store_initial, last_cycle_is_cycle.
    destruct (last_cycle evs) as [env|]; [|reflexivity].
    unfold api_status, totalServices.
    now rewrite cycle_store_values, cycle_records_length.
  - unfold api_status; simpl.
    pose proof (List.filter_length_le (fun s => Health_eqb (status s) healthy)
                  (JsMap.values (serviceStatuses (run evs initial)))).
    lia.
  - unfold api_status; simpl.
    pose proof (List.filter_length_le (fun s => Health_eqb (status s) healthy)
                  (JsMap.values (serviceStatuses (run evs initial)))).
    lia.
Qed.

(** ** The live set over a run *)

Lemma set_add_In_iff ws s c : In c (set_add ws s) <-> c = ws \/ In c s.
Proof.
  unfold set_add. destruct (List.existsb (Nat.eqb ws) s) eqn:E.
  - split; [now right|]. intros [->|H]; [|exact H].
    apply List.existsb_exists in E. destruct E as (x & Hx & Heq).
    apply Nat.eqb_eq in Heq. now subst x.
  - rewrite List.in_app_iff. simpl. split.
    + intros [H|[H|[]]]; [now right | now left].
    + intros [H|H]; [right; now left | now left].
Qed.

Lemma set_delete_In_iff ws s c : In c (set_delete ws s) <-> In c s /\ c <> ws.
Proof.
  unfold set_delete. rewrite List.filter_In.
  split; intros [H1 H2]; split; try assumption.
  - intros ->. now rewrite Nat.eqb_refl in H2.
  - apply Nat.eqb_neq in H2. now rewrite H2.
Qed.

Lemma run_clients_connected c evs :
  forall m b,
    (In c (clients m) <-> b = true) ->
    (In c (clients (run evs m)) <-> connected_from b c evs = true).
Proof.
  induction evs as [|ev rest IH]; intros m b Hb; [exact Hb|].
  destruct ev as [env|ws|ws]; cbn [run connected_from].
  - apply IH. exact Hb.
  - apply IH. cbn [step on_connection fst clients].
    rewrite set_add_In_iff.
    destruct (Nat.eqb_spec ws c) as [->|Hne].
    + split; [reflexivity | now left].
    + rewrite <- Hb. split; [intros [H|H]; [congruence|exact H] | now right].
  - apply IH. cbn [step on_close fst clients].
    rewrite set_delete_In_iff.
    destruct (Nat.eqb_spec ws c) as [->|Hne].
    + split; [intros [_ H]; congruence | discriminate].
    + rewrite <- Hb. split; [now intros [H _] | intros H; split; congruence].
Qed.

(** X9.  After any sequence of events a socket is in the live set exactly
    when its latest connection or close event is a connection; cycles never
    add or remove a socket. *)
Theorem live_set_is_connected_sockets evs c :
  In c (clients (run evs initial)) <-> connected c evs = true.
Proof.
  apply (run_clients_connected c evs initial false).
  simpl. split; [intros [] | discriminate].
Qed.

Lemma broadcastStatus_recipients store rs now cs :
  List.map to (broadcastStatus store cs rs now)
  = List.filter (fun c => rs c =? 1) cs.
Proof.
  unfold broadcastStatus.
  induction cs as [|c0 rest IH]; simpl; [reflexivity|].
  rewrite List.map_app, IH. now destruct (rs c0 =? 1).
Qed.

(** X10.  The sockets a cycle's broadcast is sent to are the sockets of the
    live set whose [readyState] is 1, each once, in the order in which they
    joined the set. *)
Theorem broadcast_recipients evs env :
  List.map to (snd (monitorServices env (run evs initial)))
  = List.filter (fun c => readyState env c =? 1) (clients (run evs initial))
  /\ NoDup (List.map to (snd (monitorServices env (run evs initial)))).
Proof.
  assert (Heq : List.map to (snd (monitorServices env (run evs initial)))
                = List.filter (fun c => readyState env c =? 1)
                    (clients (run evs initial)))
    by apply broadcastStatus_recipients.
  split; [exact Heq|]. rewrite Heq.
  apply List.NoDup_filter, run_clients_NoDup. constructor.
Qed.

Lemma trace_silent c evs :
  forall m,
    ~ In c (clients m) ->
    (forall ws, In (Connection ws) evs -> ws <> c) ->
    sends_to c (trace evs m) = [].
Proof.
  induction evs as [|ev rest IH]; intros m Hc Hev; [reflexivity|].
  cbn [trace]. unfold sends_to. rewrite List.filter_app.
  fold (sends_to c (snd (step ev m))). fold (sends_to c (trace rest (fst (step ev m)))).
  assert (Hrest : forall ws, In (Connection ws) rest -> ws <> c)
    by (intros ws H; apply Hev; now right).
  destruct ev as [env|ws|ws].
  - rewrite IH by assumption.
    change (snd (step (Cycle env) m))
      with (broadcastStatus
              (serviceStatuses (fst (monitorServices env m)))
              (clients m) (readyState env) (broadcastAt env)).
    now rewrite broadcastStatus_absent.
  - assert (Hne : ws <> c) by (apply Hev; now left).
    rewrite IH; [|cbn [step on_connection fst clients]; rewrite set_add_In_iff;
                  intros [H|H]; [congruence|contradiction] | assumption].
    cbn [step on_connection snd sends_to List.filter to].
    unfold sends_to. cbn [List.filter to].
    apply Nat.eqb_neq in Hne. now rewrite Hne.
  - rewrite IH; [reflexivity | | assumption].
    cbn [step on_close fst clients]. rewrite set_delete_In_iff. now intros [H _].
Qed.

(** X11.  A socket that has not connected is never sent anything: over a
    sequence of events with no connection of socket [c], no connection
    snapshot and no broadcast is addressed to [c]. *)
Theorem nothing_sent_before_connection evs c :
  (forall ws, In (Connection ws) evs -> ws <> c) ->
  sends_to c (trace evs initial) = [].
Proof.
  intros Hev. apply trace_silent; [intros [] | exact Hev].
Qed.

Lemma nothing_sent_before_connection_witness :
  sends_to 9%nat
    (trace [Connection 4%nat; Cycle (env_answering 200 1); Close 9%nat;
            Cycle env_faulting] initial) = [].
Proof.
  apply (nothing_sent_before_connection
           [Connection 4%nat; Cycle (env_answering 200 1); Close 9%nat;
            Cycle env_faulting] 9%nat).
  intros ws Hin. cbn [In] in Hin.
  destruct Hin as [H|[H|[H|[H|[]]]]]; try discriminate H.
  inversion H. lia.
Defined.

(** ** When the prober itself fails *)

(** X12.  The promise of [checkServiceHealth] is rejected in one case only:
    the request was rejected with [null] or [undefined], so that reading
    [error.message] in the catch clause throws.  Every other settlement of
    the request, resolved or rejected with an error object, yields a record. *)
Theorem checkServiceHealth_rejects_iff service clk got :
  (exists e, checkServiceHealth service clk got = Rejected e)
  <-> got = Rejected Nullish.
Proof.
  destruct got as [code|[msg|]]; simpl; split; intros H.
  - destruct H as [e H]. discriminate H.
  - discriminate H.
  - destruct H as [e H]. discriminate H.
  - discriminate H.
  - reflexivity.
  - eexists. reflexivity.
Qed.

(** ** What the sockets receive *)

Lemma trace_first c evs :
  forall m s rest,
    ~ In c (clients m) ->
    sends_to c (trace evs m) = s :: rest ->
    type (payload s) = "status" /\ timestamp (payload s) = None.
Proof.
  induction evs as [|ev more IH]; intros m s rest Hc Hs; [discriminate Hs|].
  cbn [trace] in Hs. unfold sends_to in Hs. rewrite List.filter_app in Hs.
  fold (sends_to c (snd (step ev m))) in Hs.
  fold (sends_to c (trace more (fst (step ev m)))) in Hs.
  destruct ev as [env|ws|ws].
  - change (snd (step (Cycle env) m))
      with (broadcastStatus
              (serviceStatuses (fst (monitorServices env m)))
              (clients m) (readyState env) (broadcastAt env)) in Hs.
    rewrite broadcastStatus_absent in Hs by assumption.
    apply (IH _ s rest) in Hs; [exact Hs | exact Hc].
  - cbn [step on_connection snd] in Hs. unfold sends_to at 1 in Hs.
    cbn [List.filter to] in Hs.
    destruct (Nat.eqb_spec ws c) as [->|Hne].
    + inversion Hs. now split.
    + apply (IH _ s rest) in Hs; [exact Hs|].
      cbn [step on_connection fst clients]. rewrite set_add_In_iff.
      intros [H|H]; [congruence|contradiction].
  - apply (IH _ s rest) in Hs; [exact Hs|].
    cbn [step on_close fst clients]. rewrite set_delete_In_iff. now intros [H _].
Qed.

(** X13.  The first message a socket is ever sent is a connection snapshot:
    a [status] message without [timestamp].  No broadcast reaches a socket
    ahead of the snapshot of its connection. *)
Theorem first_message_is_snapshot evs c s rest :
  sends_to c (trace evs initial) = s :: rest ->
  type (payload s) = "status" /\ timestamp (payload s) = None.
Proof.
  apply trace_first. intros [].
Qed.

Lemma first_message_is_snapshot_witness :
  type {| type := "status"; data := []; timestamp := None |} = "status"
  /\ timestamp {| type := "status"; data := []; timestamp := None |} = None.
Proof.
  apply (first_message_is_snapshot
           [Connection 4%nat; Cycle (env_answering 200 1)] 4%nat
           (mkSend 4%nat {| type := "status"; data := []; timestamp := None |})
           [mkSend 4%nat (statusData (cycle_store (env_answering 200 1)) 1014)]).
  reflexivity.
Defined.

(** X14.  Every message of a cycle's broadcast carries exactly the records of
    that cycle, one per registered target in registry order, with the type
    [status] and the broadcast time: no record of an earlier cycle is sent. *)
Theorem broadcast_carries_this_cycle evs env s :
  In s (snd (monitorServices env (run evs initial))) ->
  payload s = {| type := "status";
                 data := cycle_records env;
                 timestamp := Some (broadcastAt env) |}.
Proof.
  intros Hin.
  pose proof (broadcastStatus_payload
                (serviceStatuses (fst (monitorServices env (run evs initial))))
                (readyState env) (broadcastAt env) (clients (run evs initial)))
    as Hall.
  rewrite List.Forall_forall in Hall. rewrite (Hall s Hin).
  rewrite monitorServices_store_fresh.
  - unfold statusData. now rewrite cycle_store_values.
  - rewrite run_store_initial.
    destruct (last_cycle evs); [right; apply cycle_store_keys | now left].
Qed.

Lemma broadcast_carries_this_cycle_witness :
  payload (mkSend 4%nat (statusData (cycle_store env_faulting) 1014))
  = {| type := "status";
       data := cycle_records env_faulting;
       timestamp := Some (broadcastAt env_faulting) |}.
Proof.
  apply (broadcast_carries_this_cycle
           [Cycle (env_answering 200 1); Connection 4%nat] env_faulting).
  left. reflexivity.
Defined.

(** ** Overwriting in the store *)

Lemma records_from_nth_at env targets :
  forall base i T,
    List.nth_error targets i = Some T ->
    List.nth_error (records_from env base targets) i
    = Some (stored (faultAt env (base + i)%nat) (base + i)
              (checkServiceHealth T (clockOf env T) (settles env T))).
Proof.
  induction targets as [|T0 rest IH]; intros base i T H.
  - destruct i; discriminate.
  - destruct i as [|i]; simpl in H |- *.
    + inversion H. now rewrite Nat.add_0_r.
    + replace (base + S i)%nat with (S base + i)%nat by lia. now apply IH.
Qed.

Lemma cycle_store_get env i T :
  List.nth_error services i = Some T ->
  JsMap.get (svc_name T) (cycle_store env)
  = Some (stored (faultAt env i) i
            (checkServiceHealth T (clockOf env T) (settles env T))).
Proof.
  intros HT.
  apply (get_combine_nth registry_names (cycle_records env) i).
  - apply registry_names_NoDup.
  - unfold registry_names. now rewrite List.nth_error_map, HT.
  - apply (records_from_nth_at env services 0%nat i T HT).
Qed.

(** C5.  Once a polling cycle has completed, whatever events follow or
    precede it (further cycles, connections, disconnections), the store
    holds exactly one entry under the name of each registered target, and
    the value of that entry is the record the latest cycle produced for the
    target: each cycle overwrites the value of the one before, and no entry
    is duplicated or dropped. *)
Theorem store_one_entry_per_target evs T :
  In T services ->
  List.existsb is_cycle evs = true ->
  JsMap.entries_for (svc_name T) (serviceStatuses (run evs initial)) = 1%nat
  /\ exists env i,
       last_cycle evs = Some env
       /\ List.nth_error services i = Some T
       /\ JsMap.get (svc_name T) (serviceStatuses (run evs initial))
          = Some (stored (faultAt env i) i
                    (checkServiceHealth T (clockOf env T) (settles env T))).
Proof.
  intros HT Hc. split.
  - pose proof (run_has_entry T HT evs initial (or_introl Hc)) as Hge.
    pose proof (run_single_keyed evs initial initial_single_keyed (svc_name T))
      as Hle.
    lia.
  - rewrite last_cycle_is_cycle in Hc.
    destruct (last_cycle evs) as [env|] eqn:Hlast; [|discriminate Hc].
    apply List.In_nth_error in HT. destruct HT as [i Hi].
    exists env, i. split; [reflexivity|]. split; [exact Hi|].
    rewrite run_store_initial, Hlast. now apply cycle_store_get.
Qed.

Lemma store_one_entry_per_target_witness :
  JsMap.entries_for "core"
    (serviceStatuses
       (run [Connection 4%nat; Cycle (env_answering 200 1); Close 4%nat;
             Cycle env_faulting] initial)) = 1%nat
  /\ exists env i,
       last_cycle [Connection 4%nat; Cycle (env_answering 200 1); Close 4%nat;
                   Cycle env_faulting] = Some env
       /\ List.nth_error services i
          = Some (mkTarget "core" "http://localhost:3000/health")
       /\ JsMap.get "core"
            (serviceStatuses
               (run [Connection 4%nat; Cycle (env_answering 200 1); Close 4%nat;
                     Cycle env_faulting] initial))
          = Some (stored (faultAt env i) i
                    (checkServiceHealth
                       (mkTarget "core" "http://localhost:3000/health")
                       (clockOf env (mkTarget "core" "http://localhost:3000/health"))
                       (settles env
                          (mkTarget "core" "http://localhost:3000/health")))).
Proof.
  apply (store_one_entry_per_target
           [Connection 4%nat; Cycle (env_answering 200 1); Close 4%nat;
            Cycle env_faulting]
           (mkTarget "core" "http://localhost:3000/health")).
  - simpl. right. left. reflexivity.
  - reflexivity.
Defined.

(** ** Failed sends *)





